(** * The C binding of the "simple" proof example

    Source: [src/barretenberg/examples/c_bind.cpp].  The file exports one
    [extern "C"] function, [examples_simple_create_and_verify_proof], which
    runs the proof workflow of [examples::simple] inside a [try] block and
    turns a caught [std::exception] into the returned [const char*].

    The function is embedded as a computation over an explicit state (the
    world of the external collaborators and the caller's memory) that also
    yields the list of operations it performed, in order.  The collaborators
    ([barretenberg::srs::get_crs_factory] and the four functions of
    [examples::simple]) are not part of the sources: they are the fields of
    the interface [Workflow], and every result below holds for all of its
    implementations. *)

From stdpp Require Import base option list gmap strings.

(** ** Values that cross the boundary *)

(** Addresses of [bool] objects of the caller.  The parameter [bool* valid]
    is required to designate such an object; the model identifies the pointer
    with the address it holds. *)
Abbreviation addr := N.

(** A [const char*] result: [None] is [nullptr]; [Some s] is the non-null
    pointer [what()] yields for an exception object whose text is [s].  It
    names the pointer by the text the array reads while the handler runs and
    does not say that the caller can read that text: the address and the
    lifetime of the array are the matter of [returned_pointer] and
    [caller_reads] below. *)
Abbreviation c_str := (option string).

(** What a C++ call may throw.  The handler of the binding is typed
    [const std::exception&], so the model keeps apart the objects it matches
    (any class derived from [std::exception], with the text [what()] returns)
    from every other thrown object. *)
Inductive thrown : Type :=
  | std_exception (what : string)
  | other_object.

(** How a call completes: normally with a value, or by throwing. *)
Inductive completion (A : Type) : Type :=
  | Returns (a : A)
  | Throws (e : thrown).
Arguments Returns {A} a.
Arguments Throws {A} e.

(** ** The external collaborators *)

(** The five functions the binding calls.  Each acts on the collaborators'
    own state [World] and may throw; [Crs] is what [get_crs_factory] hands
    out, [Ptrs] the builder/composer pair and [Prf] the proof object. *)
Class Workflow (World Crs Ptrs Prf : Type) : Type := {
  get_crs_factory : World -> completion Crs * World;
  create_builder_and_composer : Crs -> World -> completion Ptrs * World;
  create_proof : Ptrs -> World -> completion Prf * World;
  verify_proof : Ptrs -> Prf -> World -> completion bool * World;
  delete_builder_and_composer : Ptrs -> World -> completion unit * World
}.

(** ** Observable operations *)

(** One entry per operation the binding performs: a call of a collaborator
    (recorded when it is made, whether or not it returns) or the store
    [*valid = b]. *)
Inductive event (Crs Ptrs Prf : Type) : Type :=
  | ev_get_crs_factory
  | ev_create_builder_and_composer (crs : Crs)
  | ev_create_proof (ptrs : Ptrs)
  | ev_verify_proof (ptrs : Ptrs) (proof : Prf)
  | ev_store (l : addr) (b : bool)
  | ev_delete_builder_and_composer (ptrs : Ptrs).
Arguments ev_get_crs_factory {Crs Ptrs Prf}.
Arguments ev_create_builder_and_composer {Crs Ptrs Prf} crs.
Arguments ev_create_proof {Crs Ptrs Prf} ptrs.
Arguments ev_verify_proof {Crs Ptrs Prf} ptrs proof.
Arguments ev_store {Crs Ptrs Prf} l b.
Arguments ev_delete_builder_and_composer {Crs Ptrs Prf} ptrs.

(** The name of the operation behind an event. *)
Inductive op_name : Type :=
  | op_get_crs_factory
  | op_create_builder_and_composer
  | op_create_proof
  | op_verify_proof
  | op_store
  | op_delete_builder_and_composer.

Definition name_of {Crs Ptrs Prf} (ev : event Crs Ptrs Prf) : op_name :=
  match ev with
  | ev_get_crs_factory => op_get_crs_factory
  | ev_create_builder_and_composer _ => op_create_builder_and_composer
  | ev_create_proof _ => op_create_proof
  | ev_verify_proof _ _ => op_verify_proof
  | ev_store _ _ => op_store
  | ev_delete_builder_and_composer _ => op_delete_builder_and_composer
  end.

(** The handles released along a trace, in order. *)
Definition releases {Crs Ptrs Prf} (t : list (event Crs Ptrs Prf)) : list Ptrs :=
  omap (fun ev => match ev with
                  | ev_delete_builder_and_composer p => Some p
                  | _ => None
                  end) t.

(** The stores performed along a trace, in order. *)
Definition stores {Crs Ptrs Prf} (t : list (event Crs Ptrs Prf)) : list (addr * bool) :=
  omap (fun ev => match ev with
                  | ev_store l b => Some (l, b)
                  | _ => None
                  end) t.

(** ** State and computations *)

Record state (World : Type) : Type := mk_state {
  ext : World;
  mem : gmap addr bool
}.
Arguments mk_state {World} ext mem.
Arguments ext {World} s.
Arguments mem {World} s.

Section binding.
Context {World Crs Ptrs Prf : Type}.
Context {W : Workflow World Crs Ptrs Prf}.

#[local] Abbreviation event := (event Crs Ptrs Prf).
#[local] Abbreviation state := (state World).

(** A computation: from a state to a completion, the state it leaves and
    the operations performed. *)
Definition M (A : Type) : Type := state -> completion A * state * list event.

#[export] Instance M_ret : MRet M := fun A a s => (Returns a, s, []).

#[export] Instance M_bind : MBind M := fun A B f m s =>
  match m s with
  | (Returns a, s1, t1) =>
      match f a s1 with
      | (r, s2, t2) => (r, s2, t1 ++ t2)
      end
  | (Throws e, s1, t1) => (Throws e, s1, t1)
  end.

(** A call of a collaborator. *)
Definition call {A} (ev : event) (op : World -> completion A * World) : M A :=
  fun s => match op (ext s) with
           | (r, w) => (r, mk_state w (mem s), [ev])
           end.

(** [*l = b]. *)
Definition store (l : addr) (b : bool) : M unit :=
  fun s => (Returns tt, mk_state (ext s) (<[l:=b]> (mem s)), [ev_store l b]).

(** [try { body } catch (const std::exception &e) { handler(e.what()) }]:
    an object that is not a [std::exception] is not matched and keeps
    propagating. *)
Definition try_catch {A} (body : M A) (handler : string -> M A) : M A :=
  fun s => match body s with
           | (Throws (std_exception what), s1, t1) =>
               match handler what s1 with
               | (r, s2, t2) => (r, s2, t1 ++ t2)
               end
           | finished => finished
           end.

(** The compound statement of the [try] block. *)
Definition try_block (valid : addr) : M c_str :=
  crs ← call ev_get_crs_factory get_crs_factory;
  ptrs ← call (ev_create_builder_and_composer crs) (create_builder_and_composer crs);
  proof ← call (ev_create_proof ptrs) (create_proof ptrs);
  b ← call (ev_verify_proof ptrs proof) (verify_proof ptrs proof);
  store valid b;;
  call (ev_delete_builder_and_composer ptrs) (delete_builder_and_composer ptrs);;
  mret None.

Definition examples_simple_create_and_verify_proof (valid : addr) : M c_str :=
  try_catch (try_block valid) (fun what => mret (Some what)).

(** The three components of a finished call. *)
Definition completion_of {A} (x : completion A * state * list event) : completion A := x.1.1.
Definition state_of {A} (x : completion A * state * list event) : state := x.1.2.
Definition trace_of {A} (x : completion A * state * list event) : list event := x.2.

End binding.

(** ** What the collaborators do during a call

    The properties of the binding are about calls in which a given step
    returns or raises.  The predicates below say so in terms of the
    collaborators alone: each step is run in the world its predecessor
    left. *)

(** The steps of the workflow, in the order of the source. *)
Inductive step : Type :=
  | step_setup
  | step_build
  | step_prove
  | step_verify
  | step_release.

#[export] Instance step_eq_dec : EqDecision step.
Proof. solve_decision. Defined.

(** The operations performed up to and including a step. *)
Definition ops_through (k : step) : list op_name :=
  match k with
  | step_setup => [op_get_crs_factory]
  | step_build => [op_get_crs_factory; op_create_builder_and_composer]
  | step_prove => [op_get_crs_factory; op_create_builder_and_composer; op_create_proof]
  | step_verify => [op_get_crs_factory; op_create_builder_and_composer; op_create_proof;
                    op_verify_proof]
  | step_release => [op_get_crs_factory; op_create_builder_and_composer; op_create_proof;
                     op_verify_proof; op_store; op_delete_builder_and_composer]
  end.

Section behaviour.
Context {World Crs Ptrs Prf : Type}.
Context {W : Workflow World Crs Ptrs Prf}.

(** [get_crs_factory] returns [crs]. *)
Definition setup_acquired (w0 : World) (crs : Crs) (w1 : World) : Prop :=
  get_crs_factory w0 = (Returns crs, w1).

(** ... and [create_builder_and_composer] returns the handle [ptrs]. *)
Definition handle_built (w0 : World) (crs : Crs) (ptrs : Ptrs) (w2 : World) : Prop :=
  exists w1, setup_acquired w0 crs w1 /\
             create_builder_and_composer crs w1 = (Returns ptrs, w2).

(** ... and [create_proof] returns [proof]. *)
Definition proof_made (w0 : World) (crs : Crs) (ptrs : Ptrs) (proof : Prf)
    (w3 : World) : Prop :=
  exists w2, handle_built w0 crs ptrs w2 /\
             create_proof ptrs w2 = (Returns proof, w3).

(** ... and [verify_proof] returns [b]. *)
Definition verdict_given (w0 : World) (crs : Crs) (ptrs : Ptrs) (proof : Prf)
    (b : bool) (w4 : World) : Prop :=
  exists w3, proof_made w0 crs ptrs proof w3 /\
             verify_proof ptrs proof w3 = (Returns b, w4).

(** ... and [delete_builder_and_composer] returns: no step raises. *)
Definition handle_released (w0 : World) (crs : Crs) (ptrs : Ptrs) (proof : Prf)
    (b : bool) (w5 : World) : Prop :=
  exists w4, verdict_given w0 crs ptrs proof b w4 /\
             delete_builder_and_composer ptrs w4 = (Returns tt, w5).

(** Step [k] is reached and throws [e], leaving the world [w]. *)
Inductive raises (w0 : World) (e : thrown) : step -> World -> Prop :=
  | raises_setup w :
      get_crs_factory w0 = (Throws e, w) ->
      raises w0 e step_setup w
  | raises_build crs w1 w :
      setup_acquired w0 crs w1 ->
      create_builder_and_composer crs w1 = (Throws e, w) ->
      raises w0 e step_build w
  | raises_prove crs ptrs w2 w :
      handle_built w0 crs ptrs w2 ->
      create_proof ptrs w2 = (Throws e, w) ->
      raises w0 e step_prove w
  | raises_verify crs ptrs proof w3 w :
      proof_made w0 crs ptrs proof w3 ->
      verify_proof ptrs proof w3 = (Throws e, w) ->
      raises w0 e step_verify w
  | raises_release crs ptrs proof b w4 w :
      verdict_given w0 crs ptrs proof b w4 ->
      delete_builder_and_composer ptrs w4 = (Throws e, w) ->
      raises w0 e step_release w.

(** What the [catch] clause makes of a thrown object: the text of a
    [std::exception] is returned, anything else leaves the function. *)
Definition caught (e : thrown) : completion c_str :=
  match e with
  | std_exception what => Returns (Some what)
  | other_object => Throws other_object
  end.

(** The memory after the stores of a trace. *)
Definition replay_stores (t : list (addr * bool)) (m : gmap addr bool) : gmap addr bool :=
  foldl (fun m lb => <[lb.1 := lb.2]> m) m t.

(** The collaborators' world after the calls of a trace. *)
Definition replay_calls (t : list (event Crs Ptrs Prf)) (w : World) : World :=
  foldl (fun w ev =>
           match ev with
           | ev_get_crs_factory => (get_crs_factory w).2
           | ev_create_builder_and_composer crs => (create_builder_and_composer crs w).2
           | ev_create_proof ptrs => (create_proof ptrs w).2
           | ev_verify_proof ptrs proof => (verify_proof ptrs proof w).2
           | ev_store _ _ => w
           | ev_delete_builder_and_composer ptrs => (delete_builder_and_composer ptrs w).2
           end) w t.

(** The effects the binding is allowed: calls of the collaborators and
    stores to the output parameter. *)
Definition permitted (valid : addr) (ev : event Crs Ptrs Prf) : Prop :=
  match ev with
  | ev_store l _ => l = valid
  | _ => True
  end.

(** Two results of a collaborator agree up to [R]: the same completion, and
    worlds related by [R]. *)
Definition agree {A} (R : relation World) (x y : completion A * World) : Prop :=
  x.1 = y.1 /\ R x.2 y.2.

(** [R] relates worlds in which the collaborators behave alike: from related
    worlds every operation completes in the same way (returns the same
    result or raises the same failure) and leaves related worlds. *)
Record same_behaviour (R : relation World) : Prop := {
  same_get_crs_factory w w' :
    R w w' -> agree R (get_crs_factory w) (get_crs_factory w');
  same_create_builder_and_composer crs w w' :
    R w w' -> agree R (create_builder_and_composer crs w) (create_builder_and_composer crs w');
  same_create_proof ptrs w w' :
    R w w' -> agree R (create_proof ptrs w) (create_proof ptrs w');
  same_verify_proof ptrs proof w w' :
    R w w' -> agree R (verify_proof ptrs proof w) (verify_proof ptrs proof w');
  same_delete_builder_and_composer ptrs w w' :
    R w w' -> agree R (delete_builder_and_composer ptrs w) (delete_builder_and_composer ptrs w')
}.



(** Two finished computations are alike up to [R]: same completion, same
    operations, worlds related by [R]. *)
Definition alike {A} (R : relation World)
    (x y : completion A * state World * list (event Crs Ptrs Prf)) : Prop :=
  completion_of x = completion_of y /\
  trace_of x = trace_of y /\
  R (ext (state_of x)) (ext (state_of y)).

(** The world changes through the recorded calls only, the memory through
    the recorded stores only. *)
Definition accounted {A} (s : state World)
    (x : completion A * state World * list (event Crs Ptrs Prf)) : Prop :=
  ext (state_of x) = replay_calls (trace_of x) (ext s) /\
  mem (state_of x) = replay_stores (stores (trace_of x)) (mem s).

End behaviour.

(** ** The pointer behind a diagnostic

    The handler returns the pointer [e.what()], not a copy of the text.  The
    exception object that [e] refers to is destroyed when the handler is
    left by the [return] statement.  An array that is part of the object
    (the message of a [std::runtime_error]) is gone by then; an array of
    static storage duration (a string literal) is not. *)

(** The character array [what()] designates: its address, and whether it is
    part of the exception object. *)
Record what_array : Type := mk_what_array {
  address : positive;
  in_exception_object : bool
}.

(** A [const char*] value as an address; 0 is [nullptr]. *)
Abbreviation char_ptr := N.

Section pointers.

(** The [what()] array of an exception object, which the model names by its
    text. *)
Variable what_of : string -> what_array.

(** The value the function returns, as a pointer: [nullptr] on the straight
    run, the address of the [what()] array from the handler. *)
Definition returned_pointer (r : completion c_str) : completion char_ptr :=
  match r with
  | Returns None => Returns 0%N
  | Returns (Some what) => Returns (Npos (address (what_of what)))
  | Throws e => Throws e
  end.

(** The [what()] array of the caught exception while the handler runs. *)
Definition arrays_in_handler (what : string) : gmap positive string :=
  {[ address (what_of what) := what ]}.

(** ... and once the handler is left: the exception object is destroyed,
    and the array with it when it is part of the object. *)
Definition arrays_after_handler (what : string) : gmap positive string :=
  if in_exception_object (what_of what)
  then delete (address (what_of what)) (arrays_in_handler what)
  else arrays_in_handler what.

(** Reading the text behind a pointer. *)
Definition points_to (p : char_ptr) (arrays : gmap positive string) : option string :=
  match p with
  | N0 => None
  | Npos a => arrays !! a
  end.

(** What the caller finds behind the returned pointer once the call has
    returned. *)
Definition caller_reads (r : completion c_str) : option string :=
  match r with
  | Returns (Some what) => points_to (Npos (address (what_of what))) (arrays_after_handler what)
  | _ => None
  end.

End pointers.

(** ** A substitute implementation of the collaborators

    A scripted workflow, used to run the binding on concrete inputs: every
    operation completes as the script says, the world counts the calls made
    and keeps the handles that were built and not yet released. *)

Record script : Type := mk_script {
  on_get_crs_factory : completion nat;
  on_create_builder_and_composer : completion (N * N);
  on_create_proof : completion (list N);
  on_verify_proof : completion bool;
  on_delete_builder_and_composer : completion unit
}.

Record sim_world : Type := mk_sim {
  calls : nat;
  live : list (N * N)
}.

Definition scripted (sc : script) : Workflow sim_world nat (N * N) (list N) := {|
  get_crs_factory w :=
    (on_get_crs_factory sc, mk_sim (S (calls w)) (live w));
  create_builder_and_composer _ w :=
    (on_create_builder_and_composer sc,
     mk_sim (S (calls w))
            match on_create_builder_and_composer sc with
            | Returns p => p :: live w
            | Throws _ => live w
            end);
  create_proof _ w :=
    (on_create_proof sc, mk_sim (S (calls w)) (live w));
  verify_proof _ _ w :=
    (on_verify_proof sc, mk_sim (S (calls w)) (live w));
  delete_builder_and_composer p w :=
    (on_delete_builder_and_composer sc,
     mk_sim (S (calls w))
            match on_delete_builder_and_composer sc with
            | Returns _ => filter (fun q => q <> p) (live w)
            | Throws _ => live w
            end)
|}.

(** Every step returns; the proof verifies. *)
Definition all_good : script :=
  mk_script (Returns 7%nat) (Returns (4096, 8192)%N) (Returns [1; 2; 3]%N)
            (Returns true) (Returns tt).

(** Every step returns; the proof does not verify. *)
Definition invalid_proof : script :=
  mk_script (Returns 7%nat) (Returns (4096, 8192)%N) (Returns [1; 2; 3]%N)
            (Returns false) (Returns tt).

(** [create_proof] throws a [std::runtime_error]. *)
Definition prover_fails : script :=
  mk_script (Returns 7%nat) (Returns (4096, 8192)%N)
            (Throws (std_exception "proving failed"))
            (Returns true) (Returns tt).

(** [create_builder_and_composer] throws an object that is not a
    [std::exception]. *)
Definition builder_throws_other : script :=
  mk_script (Returns 7%nat) (Throws other_object) (Returns [1; 2; 3]%N)
            (Returns true) (Returns tt).

(** [verify_proof] throws a [std::runtime_error]. *)
Definition verifier_fails : script :=
  mk_script (Returns 7%nat) (Returns (4096, 8192)%N) (Returns [1; 2; 3]%N)
            (Throws (std_exception "verification key missing")) (Returns tt).

(** [delete_builder_and_composer] throws a [std::runtime_error]. *)
Definition release_fails : script :=
  mk_script (Returns 7%nat) (Returns (4096, 8192)%N) (Returns [1; 2; 3]%N)
            (Returns false) (Throws (std_exception "double free")).

(** [verify_proof] throws an object that is not a [std::exception]. *)
Definition verifier_throws_other : script :=
  mk_script (Returns 7%nat) (Returns (4096, 8192)%N) (Returns [1; 2; 3]%N)
            (Throws other_object) (Returns tt).


(** The [what()] of a [std::runtime_error]: the message is kept in the
    exception object. *)
Definition runtime_error_what (what : string) : what_array := mk_what_array 77 true.

(** A caller whose memory holds two [bool] objects, both [false]. *)
Definition caller_memory : gmap addr bool := <[16%N := false]> (<[24%N := false]> ∅).

Definition start : state sim_world := mk_state (mk_sim 0 []) caller_memory.

(** The binding run on the scripted workflow. *)
Definition run (sc : script) (valid : addr) (s : state sim_world) :=
  examples_simple_create_and_verify_proof (W := scripted sc) valid s.

(** * Results *)

(** ** Running the binding *)

Ltac unfold_binding :=
  unfold examples_simple_create_and_verify_proof, try_catch, try_block,
    completion_of, state_of, trace_of, mbind, M_bind, mret, M_ret, call, store;
  simpl.

Ltac open_steps :=
  unfold handle_released, verdict_given, proof_made, handle_built, setup_acquired in *;
  repeat match goal with
         | H : ex _ |- _ => destruct H
         | H : _ /\ _ |- _ => destruct H
         end.

Ltac use_steps :=
  repeat match goal with
         | H : ?op = (_, _) |- context [?op] => rewrite H; simpl
         end.

Section runs.
Context {World Crs Ptrs Prf : Type}.
Context {W : Workflow World Crs Ptrs Prf}.
Implicit Types (s : state World) (valid : addr) (e : thrown) (k : step).
Implicit Types (ev : event Crs Ptrs Prf) (t : list (event Crs Ptrs Prf)).

#[local] Abbreviation comp := (@M World Crs Ptrs Prf).

(** When no step raises, the call is the straight run of the [try] block. *)
Lemma run_released valid s crs ptrs proof b w5 :
  handle_released (ext s) crs ptrs proof b w5 ->
  examples_simple_create_and_verify_proof valid s =
    (Returns None, mk_state w5 (<[valid:=b]> (mem s)),
     [ev_get_crs_factory; ev_create_builder_and_composer crs; ev_create_proof ptrs;
      ev_verify_proof ptrs proof; ev_store valid b; ev_delete_builder_and_composer ptrs]).
Proof. intros H. open_steps. unfold_binding. use_steps. reflexivity. Qed.

(** When a step raises, the call stops there and the handler decides. *)
Lemma run_raises valid s e k w :
  raises (ext s) e k w ->
  let r := examples_simple_create_and_verify_proof valid s in
  completion_of r = caught e /\
  map name_of (trace_of r) = ops_through k /\
  ext (state_of r) = w.
Proof.
  intros H; inversion H; subst; open_steps; unfold_binding; use_steps;
    destruct e; simpl; auto.
Qed.

(** Before the release step, a failure leaves the memory as it was and no
    handle released. *)
Lemma run_raises_early valid s e k w :
  raises (ext s) e k w -> k <> step_release ->
  let r := examples_simple_create_and_verify_proof valid s in
  stores (trace_of r) = [] /\ releases (trace_of r) = [] /\ mem (state_of r) = mem s.
Proof.
  intros H Hk; inversion H; subst; try congruence; open_steps; unfold_binding;
    use_steps; destruct e; simpl; auto.
Qed.

(** A failure of the release step comes after the store. *)
Lemma run_raises_release valid s e w crs ptrs proof b w4 :
  verdict_given (ext s) crs ptrs proof b w4 ->
  delete_builder_and_composer ptrs w4 = (Throws e, w) ->
  let r := examples_simple_create_and_verify_proof valid s in
  completion_of r = caught e /\
  stores (trace_of r) = [(valid, b)] /\
  mem (state_of r) = <[valid:=b]> (mem s).
Proof.
  intros H Hd. open_steps. unfold_binding. use_steps. destruct e; simpl; auto.
Qed.

(** Every call is of one of the two kinds. *)
Lemma released_or_raises (w0 : World) :
  (exists crs ptrs proof b w5, handle_released w0 crs ptrs proof b w5) \/
  (exists e k w, raises w0 e k w).
Proof.
  destruct (get_crs_factory w0) as [[crs|e] w1] eqn:H1;
    [|right; exists e, step_setup, w1; by constructor].
  destruct (create_builder_and_composer crs w1) as [[ptrs|e] w2] eqn:H2;
    [|right; exists e, step_build, w2; by econstructor].
  destruct (create_proof ptrs w2) as [[proof|e] w3] eqn:H3;
    [|right; exists e, step_prove, w3; eapply raises_prove; [|done]; by exists w1].
  assert (handle_built w0 crs ptrs w2) as Hb by (by exists w1).
  destruct (verify_proof ptrs proof w3) as [[b|e] w4] eqn:H4;
    [|right; exists e, step_verify, w4; eapply raises_verify; [|done]; by exists w2].
  assert (verdict_given w0 crs ptrs proof b w4) as Hv
    by (exists w3; split; [by exists w2|done]).
  destruct (delete_builder_and_composer ptrs w4) as [[[]|e] w5] eqn:H5.
  - left. exists crs, ptrs, proof, b, w5. by exists w4.
  - right. exists e, step_release, w5. by econstructor.
Qed.

(** The verdict of a call is determined by the world it starts in. *)
Lemma verdict_given_functional (w0 : World) crs ptrs proof b w4 crs' ptrs' proof' b' w4' :
  verdict_given w0 crs ptrs proof b w4 ->
  verdict_given w0 crs' ptrs' proof' b' w4' ->
  crs = crs' /\ ptrs = ptrs' /\ proof = proof' /\ b = b' /\ w4 = w4'.
Proof.
  intros H H'. open_steps.
  repeat match goal with
         | H1 : ?op = (Returns _, _), H2 : ?op = (Returns _, _) |- _ =>
             rewrite H1 in H2; injection H2 as -> ->
         end.
  auto.
Qed.

(** A step before the release cannot raise in a call that reaches a verdict. *)
Lemma raises_early_no_verdict (w0 : World) e k w crs ptrs proof b w4 :
  raises w0 e k w -> k <> step_release ->
  verdict_given w0 crs ptrs proof b w4 -> False.
Proof.
  intros H Hk Hv; inversion H; subst; try congruence; open_steps;
    repeat match goal with
           | H1 : ?op = (Returns _, _), H2 : ?op = (Returns _, _) |- _ =>
               rewrite H1 in H2; injection H2 as -> ->
           | H1 : ?op = (Returns _, _), H2 : ?op = (Throws _, _) |- _ =>
               rewrite H1 in H2; discriminate H2
           end.
Qed.

(** ** Calls from worlds that behave alike *)

Lemma alike_ret {A} (R : relation World) (a : A) s s' :
  R (ext s) (ext s') -> alike R ((mret a : comp A) s) ((mret a : comp A) s').
Proof. intros HR. by repeat split. Qed.

Lemma alike_bind {A B} (R : relation World) (m : comp A) (f : A -> M B) s s' :
  alike R (m s) (m s') ->
  (forall a s1 s1', R (ext s1) (ext s1') -> alike R (f a s1) (f a s1')) ->
  alike R ((m ≫= f) s) ((m ≫= f) s').
Proof.
  unfold alike, completion_of, state_of, trace_of, mbind, M_bind.
  intros (Hc & Ht & HR) Hf.
  destruct (m s) as [[[a|e] s1] t1], (m s') as [[[a'|e'] s1'] t1'];
    simpl in *; try discriminate; simplify_eq; [|done].
  specialize (Hf a' s1 s1' HR).
  destruct (f a' s1) as [[r s2] t2], (f a' s1') as [[r' s2'] t2']; simpl in *.
  destruct Hf as (-> & -> & ?). done.
Qed.

Lemma alike_call {A} (R : relation World) ev (op : World -> completion A * World) s s' :
  agree R (op (ext s)) (op (ext s')) -> alike R (call ev op s) (call ev op s').
Proof.
  unfold agree, alike, completion_of, state_of, trace_of, call.
  destruct (op (ext s)) as [r w], (op (ext s')) as [r' w']; simpl.
  intros [-> ?]. done.
Qed.

Lemma alike_store (R : relation World) l b s s' :
  R (ext s) (ext s') -> alike R ((store l b : comp unit) s) ((store l b : comp unit) s').
Proof. intros HR. by repeat split. Qed.

Lemma alike_try_catch {A} (R : relation World) (body : comp A) handler s s' :
  alike R (body s) (body s') ->
  (forall what s1 s1', R (ext s1) (ext s1') -> alike R (handler what s1) (handler what s1')) ->
  alike R (try_catch body handler s) (try_catch body handler s').
Proof.
  unfold alike, completion_of, state_of, trace_of, try_catch.
  intros (Hc & Ht & HR) Hh.
  destruct (body s) as [[[a|[what|]] s1] t1], (body s') as [[[a'|[what'|]] s1'] t1'];
    simpl in *; try discriminate; simplify_eq; try done.
  specialize (Hh what' s1 s1' HR).
  destruct (handler what' s1) as [[r s2] t2], (handler what' s1') as [[r' s2'] t2'];
    simpl in *.
  destruct Hh as (-> & -> & ?). done.
Qed.

(** The binding maps worlds that behave alike to finished calls that are
    alike, whatever the caller's memory holds. *)
Lemma alike_binding (R : relation World) valid s s' :
  same_behaviour R -> R (ext s) (ext s') ->
  alike R (examples_simple_create_and_verify_proof valid s)
          (examples_simple_create_and_verify_proof valid s').
Proof.
  intros HS HR. apply alike_try_catch; [|intros; by apply alike_ret].
  unfold try_block.
  apply alike_bind; [by apply alike_call, same_get_crs_factory|intros crs ? ? ?].
  apply alike_bind; [by apply alike_call, same_create_builder_and_composer|intros ptrs ? ? ?].
  apply alike_bind; [by apply alike_call, same_create_proof|intros proof ? ? ?].
  apply alike_bind; [by apply alike_call, same_verify_proof|intros b ? ? ?].
  apply alike_bind; [by apply alike_store|intros [] ? ? ?].
  apply alike_bind; [by apply alike_call, same_delete_builder_and_composer|intros [] ? ? ?].
  by apply alike_ret.
Qed.

(** ** The world a call leaves *)

Lemma accounted_ret {A} (a : A) s : accounted s ((mret a : comp A) s).
Proof. by split. Qed.

Lemma accounted_bind {A B} (m : comp A) (f : A -> M B) s :
  accounted s (m s) ->
  (forall a s1, accounted s1 (f a s1)) ->
  accounted s ((m ≫= f) s).
Proof.
  unfold accounted, completion_of, state_of, trace_of, mbind, M_bind, replay_calls,
    replay_stores, stores.
  intros [Hw Hm] Hf.
  destruct (m s) as [[[a|e] s1] t1]; simpl in *; [|done].
  specialize (Hf a s1). destruct (f a s1) as [[r s2] t2]; simpl in *.
  destruct Hf as [-> ->]. rewrite Hw, Hm, omap_app, !foldl_app. done.
Qed.

Lemma accounted_call {A} ev (op : World -> completion A * World) s :
  replay_calls [ev] (ext s) = (op (ext s)).2 -> stores [ev] = [] ->
  accounted s (call ev op s).
Proof.
  unfold accounted, state_of, trace_of, call. intros Hev Hst.
  destruct (op (ext s)) as [r w]; simpl in *. by rewrite Hev, Hst.
Qed.

Lemma accounted_store l b s : accounted s ((store l b : comp unit) s).
Proof. by split. Qed.

Lemma accounted_try_catch {A} (body : comp A) handler s :
  accounted s (body s) ->
  (forall what s1, accounted s1 (handler what s1)) ->
  accounted s (try_catch body handler s).
Proof.
  unfold accounted, completion_of, state_of, trace_of, try_catch, replay_calls,
    replay_stores, stores.
  intros [Hw Hm] Hh.
  destruct (body s) as [[[a|[what|]] s1] t1]; simpl in *; try done.
  specialize (Hh what s1). destruct (handler what s1) as [[r s2] t2]; simpl in *.
  destruct Hh as [-> ->]. rewrite Hw, Hm, omap_app, !foldl_app. done.
Qed.

Lemma accounted_binding valid s :
  accounted s (examples_simple_create_and_verify_proof valid s).
Proof.
  apply accounted_try_catch; [|intros; apply accounted_ret].
  unfold try_block.
  repeat (apply accounted_bind; [first [by apply accounted_call|apply accounted_store]|intros]).
  apply accounted_ret.
Qed.

(** Every recorded store is a store to the output parameter. *)
Lemma stores_of_binding valid s :
  Forall (permitted valid) (trace_of (examples_simple_create_and_verify_proof valid s)).
Proof.
  destruct (released_or_raises (ext s)) as [(crs & ptrs & proof & b & w5 & H)|(e & k & w & H)].
  - rewrite (run_released valid _ _ _ _ _ _ H). unfold trace_of; simpl.
    repeat constructor.
  - inversion H; subst; open_steps; unfold_binding; use_steps; destruct e; simpl;
      repeat constructor.
Qed.

(** The completion of a call and the world it leaves do not depend on the
    output parameter. *)
Lemma completion_any_valid valid valid' s :
  completion_of (examples_simple_create_and_verify_proof valid s) =
  completion_of (examples_simple_create_and_verify_proof valid' s).
Proof.
  destruct (released_or_raises (ext s)) as [(crs & ptrs & proof & b & w5 & H)|(e & k & w & H)].
  - by rewrite !(run_released _ _ _ _ _ _ _ H).
  - destruct (run_raises valid _ _ _ _ H) as [-> _].
    by destruct (run_raises valid' _ _ _ _ H) as [-> _].
Qed.

(** A call stores to the output parameter exactly when it reaches a verdict. *)
Lemma store_or_not valid s :
  let r := examples_simple_create_and_verify_proof valid s in
  (exists crs ptrs proof b w4,
      verdict_given (ext s) crs ptrs proof b w4 /\
      stores (trace_of r) = [(valid, b)] /\ mem (state_of r) = <[valid:=b]> (mem s)) \/
  ((forall crs ptrs proof b w4, ~ verdict_given (ext s) crs ptrs proof b w4) /\
   stores (trace_of r) = [] /\ mem (state_of r) = mem s).
Proof.
  intros r. subst r.
  destruct (released_or_raises (ext s)) as [(crs & ptrs & proof & b & w5 & H)|(e & k & w & H)].
  - left. rewrite (run_released valid _ _ _ _ _ _ H).
    destruct H as (w4 & Hv & _). by exists crs, ptrs, proof, b, w4.
  - destruct (decide (k = step_release)) as [->|Hk].
    + left. inversion H as [| | | |crs ptrs proof b w4 w' Hv Hd]; subst.
      destruct (run_raises_release valid _ _ _ _ _ _ _ _ Hv Hd) as (_ & ? & ?).
      by exists crs, ptrs, proof, b, w4.
    + right. destruct (run_raises_early valid _ _ _ _ H Hk) as (? & _ & ?).
      split; [|done]. intros crs ptrs proof b w4 Hv.
      exact (raises_early_no_verdict _ _ _ _ _ _ _ _ _ H Hk Hv).
Qed.

(** On the straight run the handle is released once, and it is the handle
    that was built. *)
Lemma released_once_on_success valid s crs ptrs proof b w5 :
  handle_released (ext s) crs ptrs proof b w5 ->
  releases (trace_of (examples_simple_create_and_verify_proof valid s)) = [ptrs].
Proof. intros H. by rewrite (run_released valid _ _ _ _ _ _ H). Qed.

(** After a failure of the prove or verify step the handle that was built is
    not released: the call of [delete_builder_and_composer] is the last
    statement of the [try] block and the handler does not make it. *)
Lemma not_released_after_failure valid s e k w :
  raises (ext s) e k w -> k = step_prove \/ k = step_verify ->
  releases (trace_of (examples_simple_create_and_verify_proof valid s)) = [].
Proof.
  intros H Hk. apply (run_raises_early valid _ _ _ _ H). by destruct Hk as [-> | ->].
Qed.

(** Equality of worlds is a relation under which the collaborators behave
    alike. *)
Lemma same_behaviour_eq : same_behaviour (W := W) eq.
Proof. by split; intros; subst. Qed.

(** ** Properties of the binding *)

(** C1, as amended.  A failure raised as a [std::exception] by a step of
    the workflow (build, prove or verify, and the setup and release steps as
    well) is caught by the handler: the call returns a non-null pointer, the
    one [what()] yields for that exception, behind which the description is
    read while the handler runs, and nothing propagates to the caller.  An
    object of any other type thrown by a step is not caught: it propagates
    out of the call and no pointer is returned. *)
Theorem thrown_object_at_the_boundary (what_of : string -> what_array) valid s e k w :
  raises (ext s) e k w ->
  let r := completion_of (examples_simple_create_and_verify_proof valid s) in
  match e with
  | std_exception what =>
      returned_pointer what_of r = Returns (Npos (address (what_of what))) /\
      returned_pointer what_of r <> Returns 0%N /\
      points_to (Npos (address (what_of what))) (arrays_in_handler what_of what) = Some what /\
      (forall e', r <> Throws e')
  | other_object =>
      r = Throws other_object /\
      (forall p, returned_pointer what_of r <> Returns p)
  end.
Proof.
  intros H r. destruct (run_raises valid _ _ _ _ H) as (Hc & _).
  fold r in Hc. rewrite Hc. destruct e as [what|]; simpl.
  - unfold arrays_in_handler. by rewrite lookup_singleton_eq.
  - done.
Qed.

(** C3.  When no step raises, the call performs exactly this sequence: it
    acquires the setup parameters, builds the handle with them, creates the
    proof from the handle, verifies the proof against the handle, stores the
    verdict through [valid], releases the handle; it returns [nullptr], and
    the output parameter then holds the verdict. *)
Theorem success_path_sequence valid s crs ptrs proof b w5 :
  handle_released (ext s) crs ptrs proof b w5 ->
  let r := examples_simple_create_and_verify_proof valid s in
  trace_of r =
    [ev_get_crs_factory; ev_create_builder_and_composer crs; ev_create_proof ptrs;
     ev_verify_proof ptrs proof; ev_store valid b; ev_delete_builder_and_composer ptrs] /\
  completion_of r = Returns None /\
  mem (state_of r) !! valid = Some b /\
  ext (state_of r) = w5.
Proof.
  intros H r. subst r. rewrite (run_released valid _ _ _ _ _ _ H).
  unfold trace_of, completion_of, state_of; simpl.
  by rewrite lookup_insert_eq.
Qed.

(** C4.  The output parameter is written exactly when the verification step
    is reached and returns: the call stores [b] through [valid] if and only
    if [verify_proof] returned [b], and then the caller's memory is the
    memory before with [b] at [valid]; it performs no store if and only if
    no verdict was given, and then the memory is the memory before; in
    particular a failure raised before the verification has returned (by
    the setup, build, prove or verify step) leaves the caller's memory
    untouched. *)
Theorem valid_written_iff_verification_returns valid s :
  let r := examples_simple_create_and_verify_proof valid s in
  (forall b, stores (trace_of r) = [(valid, b)] <->
             exists crs ptrs proof w4, verdict_given (ext s) crs ptrs proof b w4) /\
  (stores (trace_of r) = [] <->
     ~ exists crs ptrs proof b w4, verdict_given (ext s) crs ptrs proof b w4) /\
  (forall crs ptrs proof b w4, verdict_given (ext s) crs ptrs proof b w4 ->
     mem (state_of r) = <[valid:=b]> (mem s) /\ mem (state_of r) !! valid = Some b) /\
  ((~ exists crs ptrs proof b w4, verdict_given (ext s) crs ptrs proof b w4) ->
     mem (state_of r) = mem s) /\
  (forall e k w, raises (ext s) e k w -> k <> step_release ->
                 stores (trace_of r) = [] /\ mem (state_of r) = mem s).
Proof.
  intros r.
  destruct (store_or_not valid s) as
    [(crs & ptrs & proof & b & w4 & Hv & Hst & Hm)|(Hno & Hst & Hm)]; fold r in Hst, Hm.
  - split; [|split; [|split; [|split]]].
    + intros b'. rewrite Hst. split.
      * intros [= <-]. eauto.
      * intros (crs' & ptrs' & proof' & w4' & Hv').
        by destruct (verdict_given_functional _ _ _ _ _ _ _ _ _ _ _ Hv Hv')
          as (_ & _ & _ & -> & _).
    + rewrite Hst. split; [done|]. intros Hn. destruct Hn. eauto 6.
    + intros crs' ptrs' proof' b' w4' Hv'.
      destruct (verdict_given_functional _ _ _ _ _ _ _ _ _ _ _ Hv Hv')
        as (_ & _ & _ & -> & _).
      split; [done|]. by rewrite Hm, lookup_insert_eq.
    + intros Hn. destruct Hn. eauto 6.
    + intros e k w H Hk.
      destruct (raises_early_no_verdict _ _ _ _ _ _ _ _ _ H Hk Hv).
  - split; [|split; [|split; [|split]]].
    + intros b'. rewrite Hst. split; [done|].
      intros (crs & ptrs & proof & w4 & Hv). destruct (Hno _ _ _ _ _ Hv).
    + split; [|done]. intros _ (crs & ptrs & proof & b & w4 & Hv).
      destruct (Hno _ _ _ _ _ Hv).
    + intros crs ptrs proof b w4 Hv. destruct (Hno _ _ _ _ _ Hv).
    + done.
    + done.
Qed.

(** C5.  When no step raises and [verify_proof] returns [false], the call
    stores [false] through [valid] and returns [nullptr]: a proof that does
    not verify is reported through the output parameter, not as an error. *)
Theorem invalid_proof_is_not_an_error valid s crs ptrs proof w5 :
  handle_released (ext s) crs ptrs proof false w5 ->
  let r := examples_simple_create_and_verify_proof valid s in
  stores (trace_of r) = [(valid, false)] /\
  mem (state_of r) !! valid = Some false /\
  completion_of r = Returns None.
Proof.
  intros H r. subst r. rewrite (run_released valid _ _ _ _ _ _ H).
  unfold trace_of, completion_of, state_of; simpl.
  by rewrite lookup_insert_eq.
Qed.

(** C6.  The effects of a call are confined to the output parameter and the
    collaborators: every recorded operation is a call of a collaborator or a
    store through [valid]; the caller's memory after the call is its memory
    before with the recorded stores applied, so every other address keeps its
    content; the collaborators' world after the call is their world before
    with the recorded calls applied. *)
Theorem effects_are_confined valid s :
  let r := examples_simple_create_and_verify_proof valid s in
  Forall (permitted valid) (trace_of r) /\
  mem (state_of r) = replay_stores (stores (trace_of r)) (mem s) /\
  (forall l, l <> valid -> mem (state_of r) !! l = mem s !! l) /\
  ext (state_of r) = replay_calls (trace_of r) (ext s).
Proof.
  intros r. destruct (accounted_binding valid s) as [Hw Hm]. fold r in Hw, Hm.
  split; [apply stores_of_binding|]. split; [done|]. split; [|done].
  intros l Hl.
  destruct (store_or_not valid s) as
    [(crs & ptrs & proof & b & w4 & _ & _ & Hm')|(_ & _ & Hm')]; fold r in Hm';
    rewrite Hm'; [by rewrite lookup_insert_ne|done].
Qed.


(** C8.  When no step raises, the value returned is the null pointer itself,
    not a pointer to an empty string; and the null pointer is returned in no
    other case, so that testing the result against [nullptr] tells success
    from failure. *)
Theorem nullptr_iff_no_failure valid s :
  let r := examples_simple_create_and_verify_proof valid s in
  ((exists crs ptrs proof b w5, handle_released (ext s) crs ptrs proof b w5) ->
   completion_of r = Returns None /\ completion_of r <> Returns (Some "")) /\
  (completion_of r = Returns None ->
   exists crs ptrs proof b w5, handle_released (ext s) crs ptrs proof b w5).
Proof.
  intros r. split.
  - intros (crs & ptrs & proof & b & w5 & H). subst r.
    by rewrite (run_released valid _ _ _ _ _ _ H).
  - destruct (released_or_raises (ext s)) as [H|(e & k & w & H)]; [done|].
    destruct (run_raises valid _ _ _ _ H) as (Hc & _). fold r in Hc.
    rewrite Hc. by destruct e.
Qed.

(** C9, as amended.  When a step raises, the operations performed by the
    call are those up to and including that step and no later one: after a
    failure of [create_builder_and_composer] neither [create_proof] nor
    [verify_proof] nor [delete_builder_and_composer] is called, after a
    failure of [create_proof] neither [verify_proof] nor
    [delete_builder_and_composer], after a failure of [verify_proof] no
    [delete_builder_and_composer].  When the failure is a [std::exception]
    the call proceeds directly to producing the diagnostic; an object of any
    other type propagates out of the call, and no diagnostic is produced.
    Either way the world is the one the failing step left. *)
Theorem failure_stops_workflow valid s e k w :
  raises (ext s) e k w ->
  let r := examples_simple_create_and_verify_proof valid s in
  map name_of (trace_of r) = ops_through k /\
  (k <> step_release -> releases (trace_of r) = [] /\ stores (trace_of r) = []) /\
  (forall what, e = std_exception what -> completion_of r = Returns (Some what)) /\
  (e = other_object ->
   completion_of r = Throws other_object /\ forall d, completion_of r <> Returns d) /\
  ext (state_of r) = w.
Proof.
  intros H r. destruct (run_raises valid _ _ _ _ H) as (Hc & Ht & Hw).
  fold r in Hc, Ht, Hw. split; [done|]. split; [|split; [|split; [|done]]].
  - intros Hk. destruct (run_raises_early valid _ _ _ _ H Hk) as (? & ? & _). done.
  - intros what ->. done.
  - intros ->. by rewrite Hc.
Qed.

(** C10.  The outcome of a call is a function of what the collaborators do:
    two calls started in worlds in which the collaborators behave alike
    (each operation returns the same result or raises the same failure)
    return the same diagnostic, perform the same operations and store the
    same value through [valid], whatever the caller's memory holds at either
    call. *)
Theorem same_behaviour_same_outcome (R : relation World) valid s1 s2 :
  same_behaviour R -> R (ext s1) (ext s2) ->
  let r1 := examples_simple_create_and_verify_proof valid s1 in
  let r2 := examples_simple_create_and_verify_proof valid s2 in
  completion_of r1 = completion_of r2 /\
  trace_of r1 = trace_of r2 /\
  stores (trace_of r1) = stores (trace_of r2) /\
  (exists st, mem (state_of r1) = replay_stores st (mem s1) /\
              mem (state_of r2) = replay_stores st (mem s2)) /\
  R (ext (state_of r1)) (ext (state_of r2)).
Proof.
  intros HS HR r1 r2.
  destruct (alike_binding R valid s1 s2 HS HR) as (Hc & Ht & HR'). fold r1 r2 in Hc, Ht, HR'.
  repeat split; try done; [by rewrite Ht|].
  exists (stores (trace_of r1)). split.
  - apply accounted_binding.
  - rewrite Ht. apply accounted_binding.
Qed.

End runs.

(** ** The binding on the scripted workflow *)

Ltac by_running := repeat first [reflexivity | eexists | split].

Example run_all_good :
  let r := run all_good 16 start in
  completion_of r = Returns None /\
  trace_of r = [ev_get_crs_factory; ev_create_builder_and_composer 7%nat;
                ev_create_proof (4096, 8192)%N;
                ev_verify_proof (4096, 8192)%N [1; 2; 3]%N;
                ev_store 16%N true;
                ev_delete_builder_and_composer (4096, 8192)%N] /\
  mem (state_of r) !! 16%N = Some true /\
  mem (state_of r) !! 24%N = Some false /\
  ext (state_of r) = mk_sim 5 [].
Proof. by_running. Qed.

Example run_invalid_proof :
  let r := run invalid_proof 16 start in
  completion_of r = Returns None /\
  mem (state_of r) !! 16%N = Some false /\
  ext (state_of r) = mk_sim 5 [].
Proof. by_running. Qed.

Example run_verifier_fails :
  let r := run verifier_fails 16 start in
  completion_of r = Returns (Some "verification key missing") /\
  map name_of (trace_of r) = ops_through step_verify /\
  mem (state_of r) = caller_memory /\
  ext (state_of r) = mk_sim 4 [(4096, 8192)%N].
Proof. by_running. Qed.

Example run_release_fails :
  let r := run release_fails 16 start in
  completion_of r = Returns (Some "double free") /\
  map name_of (trace_of r) = ops_through step_release /\
  mem (state_of r) !! 16%N = Some false /\
  ext (state_of r) = mk_sim 5 [(4096, 8192)%N].
Proof. by_running. Qed.

Example run_builder_throws_other :
  let r := run builder_throws_other 16 start in
  completion_of r = Throws other_object /\
  map name_of (trace_of r) = ops_through step_build /\
  mem (state_of r) = caller_memory /\
  ext (state_of r) = mk_sim 2 [].
Proof. by_running. Qed.

Lemma thrown_object_at_the_boundary_witness :
  raises (W := scripted prover_fails) (ext start) (std_exception "proving failed")
         step_prove (mk_sim 3 [(4096, 8192)%N]) /\
  returned_pointer runtime_error_what (completion_of (run prover_fails 16 start)) =
    Returns 77%N.
Proof.
  assert (raises (W := scripted prover_fails) (ext start)
            (std_exception "proving failed") step_prove (mk_sim 3 [(4096, 8192)%N])) as H
    by (eapply raises_prove; by_running).
  split; [exact H|].
  exact (proj1 (thrown_object_at_the_boundary (W := scripted prover_fails)
                  runtime_error_what 16%N start _ step_prove _ H)).
Defined.

(** C1, as stated, fails, in two ways.  An object that is not a
    [std::exception], thrown by [create_builder_and_composer], is not
    matched by the handler: the call returns no diagnostic and the object
    propagates to the caller.  And when [create_proof] throws a
    [std::runtime_error], the pointer returned is not null, but the message
    it pointed to went with the exception object when the handler was left:
    behind it the caller does not find the failure's description. *)
Lemma boundary_claim_fails :
  (raises (W := scripted builder_throws_other) (ext start) other_object
          step_build (mk_sim 2 []) /\
   (forall d : c_str, completion_of (run builder_throws_other 16 start) <> Returns d) /\
   completion_of (run builder_throws_other 16 start) = Throws other_object) /\
  (raises (W := scripted prover_fails) (ext start) (std_exception "proving failed")
          step_prove (mk_sim 3 [(4096, 8192)%N]) /\
   returned_pointer runtime_error_what (completion_of (run prover_fails 16 start)) =
     Returns 77%N /\
   caller_reads runtime_error_what (completion_of (run prover_fails 16 start)) = None /\
   caller_reads runtime_error_what (completion_of (run prover_fails 16 start)) <>
     Some "proving failed").
Proof.
  split.
  - split; [eapply raises_build; by_running|]. split; [|reflexivity].
    intros d. vm_compute. discriminate.
  - split; [eapply raises_prove; by_running|]. split; [reflexivity|].
    split; [reflexivity|]. vm_compute. discriminate.
Qed.

(** C2.  The claim does not hold of the code: in the call below the handle
    is built, [create_proof] then throws a [std::runtime_error], and the
    call returns the diagnostic without having called
    [delete_builder_and_composer]; the handle is still live in the
    collaborators' world when the call has returned. *)
Theorem handle_not_released_when_proving_fails :
  let r := run prover_fails 16 start in
  handle_built (W := scripted prover_fails) (ext start) 7%nat (4096, 8192)%N
               (mk_sim 2 [(4096, 8192)%N]) /\
  raises (W := scripted prover_fails) (ext start) (std_exception "proving failed")
         step_prove (mk_sim 3 [(4096, 8192)%N]) /\
  completion_of r = Returns (Some "proving failed") /\
  trace_of r = [ev_get_crs_factory; ev_create_builder_and_composer 7%nat;
                ev_create_proof (4096, 8192)%N] /\
  releases (trace_of r) = [] /\
  live (ext (state_of r)) = [(4096, 8192)%N].
Proof.
  split; [by_running|]. split; [eapply raises_prove; by_running|]. by_running.
Qed.

Lemma success_path_sequence_witness :
  handle_released (W := scripted all_good) (ext start) 7%nat (4096, 8192)%N [1; 2; 3]%N
                  true (mk_sim 5 []) /\
  completion_of (run all_good 16 start) = Returns None /\
  mem (state_of (run all_good 16 start)) !! 16%N = Some true.
Proof.
  assert (handle_released (W := scripted all_good) (ext start) 7%nat (4096, 8192)%N
            [1; 2; 3]%N true (mk_sim 5 [])) as H by by_running.
  split; [exact H|].
  destruct (success_path_sequence (W := scripted all_good) 16%N start _ _ _ _ _ H)
    as (_ & Hc & Hm & _).
  exact (conj Hc Hm).
Defined.

Lemma invalid_proof_is_not_an_error_witness :
  handle_released (W := scripted invalid_proof) (ext start) 7%nat (4096, 8192)%N
                  [1; 2; 3]%N false (mk_sim 5 []) /\
  mem (state_of (run invalid_proof 16 start)) !! 16%N = Some false /\
  completion_of (run invalid_proof 16 start) = Returns None.
Proof.
  assert (handle_released (W := scripted invalid_proof) (ext start) 7%nat (4096, 8192)%N
            [1; 2; 3]%N false (mk_sim 5 [])) as H by by_running.
  split; [exact H|].
  exact (proj2 (invalid_proof_is_not_an_error (W := scripted invalid_proof)
                  16%N start _ _ _ _ H)).
Defined.




Lemma failure_stops_workflow_witness :
  raises (W := scripted prover_fails) (ext start) (std_exception "proving failed")
         step_prove (mk_sim 3 [(4096, 8192)%N]) /\
  map name_of (trace_of (run prover_fails 16 start)) =
    [op_get_crs_factory; op_create_builder_and_composer; op_create_proof].
Proof.
  assert (raises (W := scripted prover_fails) (ext start)
            (std_exception "proving failed") step_prove (mk_sim 3 [(4096, 8192)%N])) as H
    by (eapply raises_prove; by_running).
  split; [exact H|].
  exact (proj1 (failure_stops_workflow (W := scripted prover_fails) 16%N start _ _ _ H)).
Defined.

(** C9, as stated, fails in its last clause: when [verify_proof] throws an
    object that is not a [std::exception] no later operation is performed,
    but the call does not proceed to producing a diagnostic; the object
    leaves the call. *)
Lemma no_diagnostic_for_other_object :
  raises (W := scripted verifier_throws_other) (ext start) other_object
         step_verify (mk_sim 4 [(4096, 8192)%N]) /\
  map name_of (trace_of (run verifier_throws_other 16 start)) = ops_through step_verify /\
  (forall d : c_str, completion_of (run verifier_throws_other 16 start) <> Returns d) /\
  completion_of (run verifier_throws_other 16 start) = Throws other_object.
Proof.
  split; [eapply raises_verify; by_running|]. split; [reflexivity|].
  split; [|reflexivity]. intros d. vm_compute. discriminate.
Qed.

Lemma same_behaviour_same_outcome_witness :
  same_behaviour (W := scripted invalid_proof) eq /\
  completion_of (run invalid_proof 16 start) =
  completion_of (run invalid_proof 16 (mk_state (ext start) ∅)).
Proof.
  split; [apply same_behaviour_eq|].
  exact (proj1 (same_behaviour_same_outcome (W := scripted invalid_proof) eq 16%N
                  start (mk_state (ext start) ∅) same_behaviour_eq eq_refl)).
Defined.


(** ** Further properties of the binding *)

Ltac clash :=
  repeat match goal with
         | H1 : ?op = (_, _), H2 : ?op = (_, _) |- _ =>
             rewrite H1 in H2; simplify_eq
         end.

Ltac in_trace :=
  repeat match goal with
         | H : _ ∈ [] |- _ => by apply elem_of_nil in H
         | H : _ ∈ _ :: _ |- _ =>
             apply elem_of_cons in H; destruct H as [H|H]; [simplify_eq|]
         end.

Section further.
Context {World Crs Ptrs Prf : Type}.
Context {W : Workflow World Crs Ptrs Prf}.
Implicit Types (s : state World) (valid : addr) (e : thrown) (k : step).

(** At most one step raises in a call, and it raises one object. *)
Lemma raises_functional (w0 : World) e k w e' k' w' :
  raises w0 e k w -> raises w0 e' k' w' -> e = e' /\ k = k' /\ w = w'.
Proof.
  intros H H'; inversion H; inversion H'; subst; open_steps; clash; done.
Qed.

(** A call in which a step raises is not a call in which every step returns. *)
Lemma raises_not_released (w0 : World) e k w crs ptrs proof b w5 :
  raises w0 e k w -> handle_released w0 crs ptrs proof b w5 -> False.
Proof. intros H H'; inversion H; subst; open_steps; clash. Qed.

(** The operations of a call in which the release step raises. *)
Lemma run_raises_release_trace valid s e w crs ptrs proof b w4 :
  verdict_given (ext s) crs ptrs proof b w4 ->
  delete_builder_and_composer ptrs w4 = (Throws e, w) ->
  trace_of (examples_simple_create_and_verify_proof valid s) =
    [ev_get_crs_factory; ev_create_builder_and_composer crs; ev_create_proof ptrs;
     ev_verify_proof ptrs proof; ev_store valid b; ev_delete_builder_and_composer ptrs].
Proof.
  intros H Hd. open_steps. unfold_binding. use_steps. destruct e; simpl; auto.
Qed.

(** X1.  When [verify_proof] has returned a verdict and
    [delete_builder_and_composer] then throws a [std::exception], the call
    returns the text of that exception although the verdict is already
    stored through [valid]: the store precedes the release in the [try]
    block, so a non-null diagnostic does not mean that the output parameter
    was left alone.  The release was called once, on the handle built. *)
Theorem release_failure_after_store valid s crs ptrs proof b w4 what w :
  verdict_given (ext s) crs ptrs proof b w4 ->
  delete_builder_and_composer ptrs w4 = (Throws (std_exception what), w) ->
  let r := examples_simple_create_and_verify_proof valid s in
  completion_of r = Returns (Some what) /\
  mem (state_of r) !! valid = Some b /\
  stores (trace_of r) = [(valid, b)] /\
  releases (trace_of r) = [ptrs].
Proof.
  intros Hv Hd r.
  destruct (run_raises_release valid _ _ _ _ _ _ _ _ Hv Hd) as (Hc & Hst & Hm).
  fold r in Hc, Hst, Hm.
  pose proof (run_raises_release_trace valid _ _ _ _ _ _ _ _ Hv Hd) as Ht. fold r in Ht.
  rewrite Hm, lookup_insert_eq, Ht. done.
Qed.

(** X2.  The completion of a call tells which kind of failure occurred, and
    only that: a non-null diagnostic [d] is returned exactly when some step
    raised a [std::exception] whose [what()] is [d]; an object leaves the
    call exactly when some step threw an object that is not a
    [std::exception], and it is that object; a [std::exception] never leaves
    the call. *)
Theorem completion_classifies_failure valid s :
  let r := examples_simple_create_and_verify_proof valid s in
  (forall d, completion_of r = Returns (Some d) <->
             exists k w, raises (ext s) (std_exception d) k w) /\
  (forall e, completion_of r = Throws e <->
             e = other_object /\ exists k w, raises (ext s) other_object k w) /\
  (forall what, completion_of r <> Throws (std_exception what)).
Proof.
  intros r.
  destruct (released_or_raises (ext s)) as [(crs & ptrs & proof & b & w5 & H)|(e & k & w & H)].
  - assert (completion_of r = Returns None) as Hc
      by (subst r; by rewrite (run_released valid _ _ _ _ _ _ H)).
    rewrite Hc. split; [|split]; [intros d|intros e|done].
    + split; [done|]. intros (k & w & Hr). destruct (raises_not_released _ _ _ _ _ _ _ _ _ Hr H).
    + split; [done|]. intros (_ & k & w & Hr).
      destruct (raises_not_released _ _ _ _ _ _ _ _ _ Hr H).
  - destruct (run_raises valid _ _ _ _ H) as (Hc & _). fold r in Hc. rewrite Hc.
    split; [|split]; [intros d|intros e'|by destruct e].
    + split.
      * destruct e; simpl; [intros [= <-]; eauto|done].
      * intros (k' & w' & Hr). by destruct (raises_functional _ _ _ _ _ _ _ H Hr) as (-> & _).
    + split.
      * destruct e; simpl; [done|intros [= <-]; eauto].
      * intros (-> & k' & w' & Hr).
        by destruct (raises_functional _ _ _ _ _ _ _ H Hr) as (-> & _).
Qed.

(** X3.  The operations of a call are an initial part of the sequence
    get_crs_factory, create_builder_and_composer, create_proof, verify_proof,
    store, delete_builder_and_composer, cut after a collaborator call: the
    setup parameters are always requested first, no operation is performed
    twice, and at most one handle is released. *)
Theorem operations_in_order_at_most_once valid s :
  let r := examples_simple_create_and_verify_proof valid s in
  (exists k, map name_of (trace_of r) = ops_through k) /\
  map name_of (trace_of r) `prefix_of` ops_through step_release /\
  head (trace_of r) = Some ev_get_crs_factory /\
  NoDup (map name_of (trace_of r)) /\
  length (releases (trace_of r)) <= 1.
Proof.
  intros r.
  assert (exists k, map name_of (trace_of r) = ops_through k /\
                    length (releases (trace_of r)) <= 1) as (k & Hk & Hl).
  { destruct (released_or_raises (ext s))
      as [(crs & ptrs & proof & b & w5 & H)|(e & k & w & H)].
    - exists step_release. subst r. by rewrite (run_released valid _ _ _ _ _ _ H).
    - exists k. destruct (run_raises valid _ _ _ _ H) as (_ & Ht & _). fold r in Ht.
      split; [done|].
      destruct (decide (k = step_release)) as [->|Hne].
      + inversion H as [| | | |crs ptrs proof b w4 w' Hv Hd]; subst.
        subst r. by rewrite (run_raises_release_trace valid _ _ _ _ _ _ _ _ Hv Hd).
      + destruct (run_raises_early valid _ _ _ _ H Hne) as (_ & Hr & _). fold r in Hr.
        rewrite Hr. simpl. lia. }
  split; [by exists k|]. split; [|split; [|split; [|done]]].
  - rewrite Hk. destruct k; simpl.
    + by exists (drop 1 (ops_through step_release)).
    + by exists (drop 2 (ops_through step_release)).
    + by exists (drop 3 (ops_through step_release)).
    + by exists (drop 4 (ops_through step_release)).
    + done.
  - destruct (trace_of r) as [|[] t]; destruct k; simplify_eq/=; done.
  - rewrite Hk. destruct k; simpl;
      repeat (apply NoDup_cons; split;
              [rewrite ?elem_of_cons, elem_of_nil; intuition discriminate|]);
      apply NoDup_nil_2.
Qed.

(** X4.  The arguments of every operation are the results of the calls
    before it: the handle is built with the setup parameters
    [get_crs_factory] returned, the proof is created from the handle that
    was built, the proof verified is that proof against that handle, the
    value stored through [valid] is the verdict [verify_proof] returned, and
    the handle released is the handle that was built and verified against. *)
Theorem arguments_are_earlier_results valid s :
  let r := examples_simple_create_and_verify_proof valid s in
  (forall crs, ev_create_builder_and_composer crs ∈ trace_of r ->
     exists w1, setup_acquired (ext s) crs w1) /\
  (forall ptrs, ev_create_proof ptrs ∈ trace_of r ->
     exists crs w2, handle_built (ext s) crs ptrs w2) /\
  (forall ptrs proof, ev_verify_proof ptrs proof ∈ trace_of r ->
     exists crs w3, proof_made (ext s) crs ptrs proof w3) /\
  (forall l b, ev_store l b ∈ trace_of r ->
     l = valid /\ exists crs ptrs proof w4, verdict_given (ext s) crs ptrs proof b w4) /\
  (forall ptrs, ev_delete_builder_and_composer ptrs ∈ trace_of r ->
     exists crs proof b w4, verdict_given (ext s) crs ptrs proof b w4).
Proof.
  intros r. subst r. unfold_binding.
  destruct (get_crs_factory (ext s)) as [[crs|e1] w1] eqn:H1; simpl.
  2: { destruct e1; simpl; repeat split; intros;
         in_trace. }
  assert (setup_acquired (ext s) crs w1) as A1 by done.
  destruct (create_builder_and_composer crs w1) as [[ptrs|e2] w2] eqn:H2; simpl.
  2: { destruct e2; simpl; repeat split; intros;
         in_trace; eauto. }
  assert (handle_built (ext s) crs ptrs w2) as A2 by (by exists w1).
  destruct (create_proof ptrs w2) as [[proof|e3] w3] eqn:H3; simpl.
  2: { destruct e3; simpl; repeat split; intros;
         in_trace; eauto. }
  assert (proof_made (ext s) crs ptrs proof w3) as A3 by (by exists w2).
  destruct (verify_proof ptrs proof w3) as [[b|e4] w4] eqn:H4; simpl.
  2: { destruct e4; simpl; repeat split; intros;
         in_trace; eauto. }
  assert (verdict_given (ext s) crs ptrs proof b w4) as A4 by (by exists w3).
  destruct (delete_builder_and_composer ptrs w4) as [[[]|e5] w5] eqn:H5; simpl;
    [|destruct e5; simpl]; repeat split; intros;
    in_trace; eauto 6.
Qed.

(** X5.  [delete_builder_and_composer] is called exactly in the calls that
    reach a verdict, and then on the handle built; a handle that was built
    goes without a release call exactly when [create_proof] or
    [verify_proof] raises. *)
Theorem release_called_iff_verdict valid s :
  let r := examples_simple_create_and_verify_proof valid s in
  (forall ptrs, releases (trace_of r) = [ptrs] <->
     exists crs proof b w4, verdict_given (ext s) crs ptrs proof b w4) /\
  (forall ptrs,
     (releases (trace_of r) = [] /\ exists crs w2, handle_built (ext s) crs ptrs w2) <->
     exists e k w, raises (ext s) e k w /\ (k = step_prove \/ k = step_verify) /\
                   exists crs w2, handle_built (ext s) crs ptrs w2).
Proof.
  intros r.
  destruct (released_or_raises (ext s)) as [(crs & ptrs & proof & b & w5 & H)|(e & k & w & H)].
  - assert (releases (trace_of r) = [ptrs]) as Hr
      by (subst r; by rewrite (run_released valid _ _ _ _ _ _ H)).
    rewrite Hr. destruct H as (w4 & Hv & Hd). split; intros ptrs'.
    + split.
      * intros [= <-]. eauto.
      * intros (crs' & proof' & b' & w4' & Hv').
        by destruct (verdict_given_functional _ _ _ _ _ _ _ _ _ _ _ Hv Hv')
          as (_ & -> & _).
    + split; [by intros [? _]|]. intros (e & k & w & Hr' & _).
      destruct (raises_not_released _ _ _ _ _ _ _ _ _ Hr'
                  (ex_intro _ w4 (conj Hv Hd))).
  - destruct (decide (k = step_release)) as [->|Hne].
    + inversion H as [| | | |crs ptrs proof b w4 w' Hv Hd]; subst.
      assert (releases (trace_of r) = [ptrs]) as Hr
        by (subst r; by rewrite (run_raises_release_trace valid _ _ _ _ _ _ _ _ Hv Hd)).
      rewrite Hr. split; intros ptrs'.
      * split.
        -- intros [= <-]. eauto.
        -- intros (crs' & proof' & b' & w4' & Hv').
           by destruct (verdict_given_functional _ _ _ _ _ _ _ _ _ _ _ Hv Hv')
             as (_ & -> & _).
      * split; [by intros [? _]|]. intros (e' & k' & w'' & Hr' & [-> | ->] & _);
          by destruct (raises_functional _ _ _ _ _ _ _ H Hr') as (_ & ? & _).
    + destruct (run_raises_early valid _ _ _ _ H Hne) as (_ & Hr & _). fold r in Hr.
      rewrite Hr. split; intros ptrs'.
      * split; [done|]. intros (crs & proof & b & w4 & Hv).
        destruct (raises_early_no_verdict _ _ _ _ _ _ _ _ _ H Hne Hv).
      * split.
        -- intros (_ & crs & w2 & Hb). exists e, k, w. split; [done|]. split; [|eauto].
           inversion H; subst; open_steps; clash; auto.
        -- intros (_ & _ & _ & _ & _ & Hb). done.
Qed.

End further.

Lemma release_failure_after_store_witness :
  verdict_given (W := scripted release_fails) (ext start) 7%nat (4096, 8192)%N
                [1; 2; 3]%N false (mk_sim 4 [(4096, 8192)%N]) /\
  completion_of (run release_fails 16 start) = Returns (Some "double free") /\
  mem (state_of (run release_fails 16 start)) !! 16%N = Some false.
Proof.
  assert (verdict_given (W := scripted release_fails) (ext start) 7%nat (4096, 8192)%N
            [1; 2; 3]%N false (mk_sim 4 [(4096, 8192)%N])) as H by by_running.
  split; [exact H|].
  destruct (release_failure_after_store (W := scripted release_fails) 16%N start
              _ _ _ _ _ "double free" (mk_sim 5 [(4096, 8192)%N]) H eq_refl)
    as (Hc & Hm & _).
  exact (conj Hc Hm).
Defined.
